(** * byteswap.h: the GNU-style byte-swap shim and its test program

    A shallow embedding of [macOS/include/byteswap/byteswap.h] (the manual
    "last resort" definitions of [bswap_16], [bswap_32] and [bswap_64]) and of
    [macOS/include/byteswap/test.c] (the test program's [main]).

    Fixed-width unsigned integers are integers of [Z] in the range
    [0 .. 2^w - 1]; every place where C wraps a value around, or converts it
    to a narrower type, is written out with [mod 2^w].  The type [int] is
    taken to be 32 bits wide, so a [uint16_t] operand is promoted to [int]. *)

From Stdlib Require Import ZArith Lia Bool List String Ascii.
Import ListNotations.

Local Open Scope Z_scope.

(** ** C integer arithmetic *)

Module CInt.

(** [z] is representable in the unsigned type of [w] bits. *)
Definition in_uint (w z : Z) : Prop := 0 <= z < 2 ^ w.

(** Conversion to the unsigned type of [w] bits. *)
Definition to_uint (w z : Z) : Z := z mod 2 ^ w.

(** [a << k] and [a >> k] on an unsigned operand of [w] bits. *)
Definition shl (w a k : Z) : Z := to_uint w (Z.shiftl a k).
Definition shr (a k : Z) : Z := Z.shiftr a k.

(** The same operators with the conditions under which C leaves them
    undefined made explicit: [None] stands for undefined behaviour. *)
Definition int_width : Z := 32.
Definition INT_MAX : Z := 2 ^ 31 - 1.

Definition count_ok (w k : Z) : bool := (0 <=? k) && (k <? w).

(** Shifts of an unsigned operand of [w] bits. *)
Definition shl_u (w a k : Z) : option Z :=
  if count_ok w k then Some (to_uint w (Z.shiftl a k)) else None.
Definition shr_u (w a k : Z) : option Z :=
  if count_ok w k then Some (Z.shiftr a k) else None.

(** Shifts of an operand of type [int]: a left shift is undefined for a
    negative operand and when the result is not representable. *)
Definition shl_int (a k : Z) : option Z :=
  if count_ok int_width k && (0 <=? a) && (Z.shiftl a k <=? INT_MAX)
  then Some (Z.shiftl a k) else None.
Definition shr_int (a k : Z) : option Z :=
  if count_ok int_width k && (0 <=? a) then Some (Z.shiftr a k) else None.

Definition bind {A B : Type} (m : option A) (f : A -> option B) : option B :=
  match m with
  | Some a => f a
  | None => None
  end.

End CInt.

Notation "x <- m ;; k" := (CInt.bind m (fun x => k))
  (at level 61, m at next level, right associativity).

(** ** byteswap.h, manual implementations *)

Module Fallback.
Import CInt.

(** [return (x >> 8) | (x << 8);] on [uint16_t x]: both shifts are done on
    the promoted [int], the result is converted back to [uint16_t]. *)
Definition bswap_16 (x : Z) : Z :=
  to_uint 16 (Z.lor (Z.shiftr x 8) (Z.shiftl x 8)).

Definition bswap_32 (x : Z) : Z :=
  Z.lor (Z.lor (Z.lor
    (shr (Z.land x 0xff000000) 24)
    (shr (Z.land x 0x00ff0000) 8))
    (shl 32 (Z.land x 0x0000ff00) 8))
    (shl 32 (Z.land x 0x000000ff) 24).

Definition bswap_64 (x : Z) : Z :=
  Z.lor (Z.lor (Z.lor (Z.lor (Z.lor (Z.lor (Z.lor
    (shr (Z.land x 0xff00000000000000) 56)
    (shr (Z.land x 0x00ff000000000000) 40))
    (shr (Z.land x 0x0000ff0000000000) 24))
    (shr (Z.land x 0x000000ff00000000) 8))
    (shl 64 (Z.land x 0x00000000ff000000) 8))
    (shl 64 (Z.land x 0x0000000000ff0000) 24))
    (shl 64 (Z.land x 0x000000000000ff00) 40))
    (shl 64 (Z.land x 0x00000000000000ff) 56).

(** The same three bodies over the checked operators. *)
Definition bswap_16_checked (x : Z) : option Z :=
  hi <- shr_int x 8 ;;
  lo <- shl_int x 8 ;;
  Some (to_uint 16 (Z.lor hi lo)).

Definition bswap_32_checked (x : Z) : option Z :=
  b3 <- shr_u 32 (Z.land x 0xff000000) 24 ;;
  b2 <- shr_u 32 (Z.land x 0x00ff0000) 8 ;;
  b1 <- shl_u 32 (Z.land x 0x0000ff00) 8 ;;
  b0 <- shl_u 32 (Z.land x 0x000000ff) 24 ;;
  Some (Z.lor (Z.lor (Z.lor b3 b2) b1) b0).

Definition bswap_64_checked (x : Z) : option Z :=
  b7 <- shr_u 64 (Z.land x 0xff00000000000000) 56 ;;
  b6 <- shr_u 64 (Z.land x 0x00ff000000000000) 40 ;;
  b5 <- shr_u 64 (Z.land x 0x0000ff0000000000) 24 ;;
  b4 <- shr_u 64 (Z.land x 0x000000ff00000000) 8 ;;
  b3 <- shl_u 64 (Z.land x 0x00000000ff000000) 8 ;;
  b2 <- shl_u 64 (Z.land x 0x0000000000ff0000) 24 ;;
  b1 <- shl_u 64 (Z.land x 0x000000000000ff00) 40 ;;
  b0 <- shl_u 64 (Z.land x 0x00000000000000ff) 56 ;;
  Some (Z.lor (Z.lor (Z.lor (Z.lor (Z.lor (Z.lor (Z.lor
    b7 b6) b5) b4) b3) b2) b1) b0).

End Fallback.

(** ** test.c *)

Module Harness.

(** Standard output is the text written so far; a statement of [main] is a
    function from that text to a result and the new text. *)
Definition IO (A : Type) : Type := string -> A * string.

Definition ret {A : Type} (a : A) : IO A := fun out => (a, out).
Definition seq {A B : Type} (m : IO A) (f : A -> IO B) : IO B :=
  fun out => let (a, out') := m out in f a out'.
Definition printf (s : string) : IO unit :=
  fun out => (tt, (out ++ s)%string).

Definition nl : string := String (ascii_of_nat 10) EmptyString.

(** The conversions [%04x], [%08x] and [%016llx]: lower-case hexadecimal,
    padded with zeros up to the minimum width. *)
Definition hex_digit (d : Z) : ascii :=
  match d with
  | 0 => "0" | 1 => "1" | 2 => "2" | 3 => "3"
  | 4 => "4" | 5 => "5" | 6 => "6" | 7 => "7"
  | 8 => "8" | 9 => "9" | 10 => "a" | 11 => "b"
  | 12 => "c" | 13 => "d" | 14 => "e" | _ => "f"
  end%char.

(** The [n] low-order digits of [v], least significant first. *)
Fixpoint hex_rev (n : nat) (v : Z) : list ascii :=
  match n with
  | O => []
  | S n' => hex_digit (v mod 16) :: hex_rev n' (v / 16)
  end.

(** Drop leading zeros while more than [minw] digits are left. *)
Fixpoint strip (minw : nat) (ds : list ascii) : list ascii :=
  match ds with
  | d :: ds' =>
      if (minw <? List.length ds)%nat && Ascii.eqb d "0"
      then strip minw ds' else ds
  | [] => []
  end.

(** [fmt_x minw digits v]: [v], an unsigned value of [4 * digits] bits,
    printed with minimum field width [minw]. *)
Definition fmt_x (minw digits : nat) (v : Z) : string :=
  string_of_list_ascii (strip minw (rev (hex_rev digits v))).

Section Main.
(** Whatever [bswap_16], [bswap_32] and [bswap_64] resolve to in
    byteswap.h. *)
Variables bswap_16 bswap_32 bswap_64 : Z -> Z.

Definition main : IO Z :=
  let val16 := 0x1234 in
  let val32 := 0x12345678 in
  let val64 := 0x123456789ABCDEF0 in
  seq (printf ("Byte swap test:" ++ nl ++ nl)%string) (fun _ =>
  seq (printf ("16-bit: 0x" ++ fmt_x 4 8 val16 ++ " -> 0x"
               ++ fmt_x 4 8 (bswap_16 val16) ++ nl)%string) (fun _ =>
  seq (printf ("32-bit: 0x" ++ fmt_x 8 8 val32 ++ " -> 0x"
               ++ fmt_x 8 8 (bswap_32 val32) ++ nl)%string) (fun _ =>
  seq (printf ("64-bit: 0x" ++ fmt_x 16 16 val64 ++ " -> 0x"
               ++ fmt_x 16 16 (bswap_64 val64) ++ nl)%string) (fun _ =>
  let passed := 1 in
  let passed := if negb (bswap_16 0x1234 =? 0x3412) then 0 else passed in
  let passed :=
    if negb (bswap_32 0x12345678 =? 0x78563412) then 0 else passed in
  let passed :=
    if negb (bswap_64 0x123456789ABCDEF0 =? 0xF0DEBC9A78563412)
    then 0 else passed in
  seq (printf (nl ++ "Test "
               ++ (if negb (passed =? 0)%Z then "PASSED" else "FAILED")
               ++ "!" ++ nl)%string) (fun _ =>
  ret (if negb (passed =? 0) then 0 else 1)))))).

(** Running the program: the text on standard output and the exit
    status. *)
Definition run : string * Z :=
  let (status, out) := main EmptyString in (out, status).

Definition stdout : string := fst run.
Definition exit_status : Z := snd run.
End Main.

(** The program built against the manual implementations. *)
Definition run_fallback : string * Z :=
  run Fallback.bswap_16 Fallback.bswap_32 Fallback.bswap_64.

End Harness.

(** ** Vocabulary of the properties *)

Module Spec.

(** Byte [i] of a word, byte 0 being the least significant. *)
Definition byte_at (i x : Z) : Z := Z.land (Z.shiftr x (8 * i)) 0xff.

(** The 16-bit formula with both halves masked. *)
Definition swap16_masked (x : Z) : Z :=
  Z.lor (Z.land (Z.shiftr x 8) 0xFF) (Z.land (Z.shiftl x 8) 0xFF00).

(** The three comparisons of [main], all found equal. *)
Definition checks_match (bswap_16 bswap_32 bswap_64 : Z -> Z) : bool :=
  (bswap_16 0x1234 =? 0x3412) &&
  (bswap_32 0x12345678 =? 0x78563412) &&
  (bswap_64 0x123456789ABCDEF0 =? 0xF0DEBC9A78563412).

(** The last line written when the flag [passed] is still set, and when
    it has been cleared. *)
Definition passed_line : string :=
  (Harness.nl ++ "Test PASSED!" ++ Harness.nl)%string.
Definition failed_line : string :=
  (Harness.nl ++ "Test FAILED!" ++ Harness.nl)%string.

(** [out] ends with [line]. *)
Definition ends_with (line out : string) : Prop :=
  exists before, out = (before ++ line)%string.

(** Everything the program writes when the three results are the expected
    ones. *)
Definition passing_transcript : string :=
  ("Byte swap test:" ++ Harness.nl ++ Harness.nl
   ++ "16-bit: 0x1234 -> 0x3412" ++ Harness.nl
   ++ "32-bit: 0x12345678 -> 0x78563412" ++ Harness.nl
   ++ "64-bit: 0x123456789abcdef0 -> 0xf0debc9a78563412" ++ Harness.nl
   ++ Harness.nl ++ "Test PASSED!" ++ Harness.nl)%string.

End Spec.

(** ** Bit-level facts *)

Module BitFacts.
Import CInt.

Lemma testbit_above (w x n : Z) :
  0 <= w -> in_uint w x -> w <= n -> Z.testbit x n = false.
Proof.
  intros Hw Hx Hn. unfold in_uint in Hx.
  rewrite <- (Z.mod_small x (2 ^ w)) by exact Hx.
  apply Z.mod_pow2_bits_high. lia.
Qed.

(** A value whose bits from [w] on are all clear fits in [w] bits. *)
Lemma in_uint_by_bits (w y : Z) :
  0 <= w ->
  (forall n, w <= n -> Z.testbit y n = false) ->
  in_uint w y.
Proof.
  intros Hw Hhigh.
  assert (E : y = y mod 2 ^ w).
  { apply Z.bits_inj'. intros n Hn.
    rewrite Z.testbit_mod_pow2 by exact Hw.
    destruct (Z.ltb_spec n w) as [Hlt | Hge]; simpl.
    - reflexivity.
    - apply Hhigh, Hge. }
  unfold in_uint. rewrite E.
  apply Z.mod_pos_bound, Z.pow_pos_nonneg; lia.
Qed.

(** A bit of [x & (0xff << k)]. *)
Lemma byte_mask_spec (x k n : Z) :
  Z.testbit (Z.land x (Z.shiftl (Z.ones 8) k)) n
  = Z.testbit x n && ((k <=? n) && (n <? k + 8)).
Proof.
  destruct (Z.lt_ge_cases n 0) as [Hn | Hn].
  { now rewrite !Z.testbit_neg_r by exact Hn. }
  rewrite Z.land_spec, Z.shiftl_spec by exact Hn.
  rewrite Z.testbit_ones by lia.
  f_equal.
  destruct (Z.leb_spec 0 (n - k)), (Z.leb_spec k n),
    (Z.ltb_spec (n - k) 8), (Z.ltb_spec n (k + 8)); simpl; trivial; lia.
Qed.

(** Linear arithmetic with division by a constant. *)
Ltac zlia := Z.div_mod_to_equations; lia.

(** Replace every integer comparison of the goal that [zlia] can decide by
    its value. *)
Ltac decide_cmp :=
  repeat match goal with
  | |- context [?a <? ?b] =>
      first [ rewrite (proj2 (Z.ltb_lt a b)) by zlia
            | rewrite (proj2 (Z.ltb_ge a b)) by zlia ]
  | |- context [?a <=? ?b] =>
      first [ rewrite (proj2 (Z.leb_le a b)) by zlia
            | rewrite (proj2 (Z.leb_gt a b)) by zlia ]
  end.

Ltac bool_simpl :=
  repeat rewrite ?andb_true_r, ?andb_false_r, ?andb_true_l, ?andb_false_l,
    ?orb_false_r, ?orb_false_l, ?orb_true_r, ?orb_true_l.

(** Two bits of one number at positions that [zlia] proves equal. *)
Ltac same_bit :=
  first [ reflexivity | f_equal; zlia ].

End BitFacts.

Module FallbackFacts.
Import CInt Fallback BitFacts.

Lemma bswap_32_fields (x : Z) :
  bswap_32 x =
  Z.lor (Z.lor (Z.lor
    (shr (Z.land x (Z.shiftl (Z.ones 8) 24)) 24)
    (shr (Z.land x (Z.shiftl (Z.ones 8) 16)) 8))
    (shl 32 (Z.land x (Z.shiftl (Z.ones 8) 8)) 8))
    (shl 32 (Z.land x (Z.shiftl (Z.ones 8) 0)) 24).
Proof. reflexivity. Qed.

Lemma bswap_64_fields (x : Z) :
  bswap_64 x =
  Z.lor (Z.lor (Z.lor (Z.lor (Z.lor (Z.lor (Z.lor
    (shr (Z.land x (Z.shiftl (Z.ones 8) 56)) 56)
    (shr (Z.land x (Z.shiftl (Z.ones 8) 48)) 40))
    (shr (Z.land x (Z.shiftl (Z.ones 8) 40)) 24))
    (shr (Z.land x (Z.shiftl (Z.ones 8) 32)) 8))
    (shl 64 (Z.land x (Z.shiftl (Z.ones 8) 24)) 8))
    (shl 64 (Z.land x (Z.shiftl (Z.ones 8) 16)) 24))
    (shl 64 (Z.land x (Z.shiftl (Z.ones 8) 8)) 40))
    (shl 64 (Z.land x (Z.shiftl (Z.ones 8) 0)) 56).
Proof. reflexivity. Qed.

(** Bit [n] of each result.  Bit [n] lies in byte [n / 8]; the byte that
    lands there comes from [16 * (n / 8)] bits below the top byte. *)
Lemma bswap_16_testbit (x n : Z) :
  in_uint 16 x -> 0 <= n ->
  Z.testbit (bswap_16 x) n
  = (n <? 16) && Z.testbit x (n + 8 - 16 * (n / 8)).
Proof.
  intros Hx Hn. unfold bswap_16, to_uint.
  rewrite Z.testbit_mod_pow2, Z.lor_spec, Z.shiftr_spec, Z.shiftl_spec by lia.
  assert (Hc : n < 8 \/ 8 <= n < 16 \/ 16 <= n) by lia.
  destruct Hc as [Hc | [Hc | Hc]]; decide_cmp; bool_simpl.
  - rewrite (Z.testbit_neg_r x (n - 8)) by lia. bool_simpl. same_bit.
  - rewrite (testbit_above 16 x (n + 8)) by (trivial; lia).
    bool_simpl. same_bit.
  - reflexivity.
Qed.

Lemma bswap_32_testbit (x n : Z) :
  0 <= n ->
  Z.testbit (bswap_32 x) n
  = (n <? 32) && Z.testbit x (n + 24 - 16 * (n / 8)).
Proof.
  intros Hn. rewrite bswap_32_fields. unfold shl, shr, to_uint.
  rewrite !Z.lor_spec, !Z.testbit_mod_pow2, !Z.shiftr_spec by lia.
  assert (Hc : n < 8 \/ 8 <= n < 16 \/ 16 <= n < 24 \/ 24 <= n < 32 \/ 32 <= n)
    by lia.
  destruct Hc as [Hc | [Hc | [Hc | [Hc | Hc]]]];
    rewrite ?Z.shiftl_spec by lia; rewrite ?byte_mask_spec;
    decide_cmp; bool_simpl; same_bit.
Qed.

Lemma bswap_64_testbit (x n : Z) :
  0 <= n ->
  Z.testbit (bswap_64 x) n
  = (n <? 64) && Z.testbit x (n + 56 - 16 * (n / 8)).
Proof.
  intros Hn. rewrite bswap_64_fields. unfold shl, shr, to_uint.
  rewrite !Z.lor_spec, !Z.testbit_mod_pow2, !Z.shiftr_spec by lia.
  assert (Hc : n < 8 \/ 8 <= n < 16 \/ 16 <= n < 24 \/ 24 <= n < 32 \/
               32 <= n < 40 \/ 40 <= n < 48 \/ 48 <= n < 56 \/
               56 <= n < 64 \/ 64 <= n) by lia.
  destruct Hc as [Hc | [Hc | [Hc | [Hc | [Hc | [Hc | [Hc | [Hc | Hc]]]]]]]];
    rewrite ?Z.shiftl_spec by lia; rewrite ?byte_mask_spec;
    decide_cmp; bool_simpl; same_bit.
Qed.

(** Each result fits in the width of its type. *)
Lemma bswap_16_range (x : Z) : in_uint 16 (bswap_16 x).
Proof.
  unfold bswap_16, to_uint, in_uint.
  apply Z.mod_pos_bound. reflexivity.
Qed.

Lemma bswap_32_range (x : Z) : in_uint 32 (bswap_32 x).
Proof.
  apply in_uint_by_bits; [lia |]. intros n Hn.
  rewrite bswap_32_testbit by lia. now decide_cmp.
Qed.

Lemma bswap_64_range (x : Z) : in_uint 64 (bswap_64 x).
Proof.
  apply in_uint_by_bits; [lia |]. intros n Hn.
  rewrite bswap_64_testbit by lia. now decide_cmp.
Qed.

End FallbackFacts.

(** ** The manual implementations: byte reversal *)

Module FallbackSpec.
Import CInt Fallback Spec BitFacts FallbackFacts.

(** C1.  For every 16-bit unsigned [x], the unmasked expression
    [(x >> 8) | (x << 8)] of [bswap_16], computed on the promoted [int] and
    converted to [uint16_t] on return, equals
    [((x >> 8) & 0xFF) | ((x << 8) & 0xFF00)]. *)
Theorem bswap_16_masked (x : Z) :
  in_uint 16 x -> bswap_16 x = swap16_masked x.
Proof.
  intros Hx. apply Z.bits_inj'. intros n Hn.
  unfold bswap_16, swap16_masked, to_uint.
  change 0xFF with (Z.ones 8).
  change 0xFF00 with (Z.shiftl (Z.ones 8) 8).
  rewrite Z.testbit_mod_pow2, !Z.lor_spec, byte_mask_spec, Z.land_spec by lia.
  rewrite Z.testbit_ones_nonneg, Z.shiftr_spec, Z.shiftl_spec by lia.
  assert (Hc : n < 8 \/ 8 <= n < 16 \/ 16 <= n) by lia.
  destruct Hc as [Hc | [Hc | Hc]]; decide_cmp; bool_simpl.
  - rewrite (Z.testbit_neg_r x (n - 8)) by lia. now bool_simpl.
  - rewrite (testbit_above 16 x (n + 8)) by (trivial; lia). reflexivity.
  - reflexivity.
Qed.

Lemma bswap_16_masked_witness :
  in_uint 16 0x1234 /\ bswap_16 0x1234 = swap16_masked 0x1234.
Proof.
  assert (H : in_uint 16 0x1234) by (unfold in_uint; lia).
  split; [exact H | apply (bswap_16_masked 0x1234 H)].
Defined.

Lemma byte_at_testbit (i x n : Z) :
  0 <= n ->
  Z.testbit (byte_at i x) n = Z.testbit x (n + 8 * i) && (n <? 8).
Proof.
  intros Hn. unfold byte_at. change 0xff with (Z.ones 8).
  now rewrite Z.land_spec, Z.shiftr_spec, Z.testbit_ones_nonneg by lia.
Qed.

(** C2.  [bswap_32] and [bswap_64] reverse the byte order: byte [i] of
    [bswap_32 x] is byte [3 - i] of [x] for [i] in 0..3, and byte [i] of
    [bswap_64 x] is byte [7 - i] of [x] for [i] in 0..7. *)
Theorem bswap_32_64_reverse_bytes :
  (forall x i, in_uint 32 x -> 0 <= i <= 3 ->
     byte_at i (bswap_32 x) = byte_at (3 - i) x) /\
  (forall x i, in_uint 64 x -> 0 <= i <= 7 ->
     byte_at i (bswap_64 x) = byte_at (7 - i) x).
Proof.
  split; intros x i _ Hi; apply Z.bits_inj'; intros n Hn;
    rewrite !byte_at_testbit by exact Hn;
    destruct (Z.ltb_spec n 8) as [Hlt | Hge]; bool_simpl; trivial.
  - rewrite bswap_32_testbit by lia. decide_cmp. bool_simpl. same_bit.
  - rewrite bswap_64_testbit by lia. decide_cmp. bool_simpl. same_bit.
Qed.

Lemma bswap_32_64_reverse_bytes_witness :
  byte_at 1 (bswap_32 0x12345678) = byte_at (3 - 1) 0x12345678 /\
  byte_at 6 (bswap_64 0x123456789ABCDEF0)
  = byte_at (7 - 6) 0x123456789ABCDEF0.
Proof.
  split.
  - apply (proj1 bswap_32_64_reverse_bytes 0x12345678 1);
      unfold in_uint; lia.
  - apply (proj2 bswap_32_64_reverse_bytes 0x123456789ABCDEF0 6);
      unfold in_uint; lia.
Defined.

(** C4.  The three vectors of the test program:
    [bswap_16 0x1234 = 0x3412], [bswap_32 0x12345678 = 0x78563412] and
    [bswap_64 0x123456789ABCDEF0 = 0xF0DEBC9A78563412]. *)
Theorem bswap_test_vectors :
  bswap_16 0x1234 = 0x3412 /\
  bswap_32 0x12345678 = 0x78563412 /\
  bswap_64 0x123456789ABCDEF0 = 0xF0DEBC9A78563412.
Proof. repeat split; vm_compute; reflexivity. Qed.

(** C5.  [bswap_64] is an involution on 64-bit unsigned values. *)
Theorem bswap_64_involutive (x : Z) :
  in_uint 64 x -> bswap_64 (bswap_64 x) = x.
Proof.
  intros Hx. apply Z.bits_inj'. intros n Hn.
  rewrite bswap_64_testbit by exact Hn.
  destruct (Z.ltb_spec n 64) as [Hlt | Hge]; bool_simpl.
  - rewrite bswap_64_testbit by zlia. decide_cmp. bool_simpl. same_bit.
  - symmetry. apply (testbit_above 64); trivial; lia.
Qed.

Lemma bswap_64_involutive_witness :
  in_uint 64 0x123456789ABCDEF0 /\
  bswap_64 (bswap_64 0x123456789ABCDEF0) = 0x123456789ABCDEF0.
Proof.
  assert (H : in_uint 64 0x123456789ABCDEF0) by (unfold in_uint; lia).
  split; [exact H | apply (bswap_64_involutive _ H)].
Defined.

(** C6.  [bswap_32] is an involution on 32-bit unsigned values. *)
Theorem bswap_32_involutive (x : Z) :
  in_uint 32 x -> bswap_32 (bswap_32 x) = x.
Proof.
  intros Hx. apply Z.bits_inj'. intros n Hn.
  rewrite bswap_32_testbit by exact Hn.
  destruct (Z.ltb_spec n 32) as [Hlt | Hge]; bool_simpl.
  - rewrite bswap_32_testbit by zlia. decide_cmp. bool_simpl. same_bit.
  - symmetry. apply (testbit_above 32); trivial; lia.
Qed.

Lemma bswap_32_involutive_witness :
  in_uint 32 0x12345678 /\ bswap_32 (bswap_32 0x12345678) = 0x12345678.
Proof.
  assert (H : in_uint 32 0x12345678) by (unfold in_uint; lia).
  split; [exact H | apply (bswap_32_involutive _ H)].
Defined.

(** C7.  [bswap_16] is an involution on 16-bit unsigned values. *)
Theorem bswap_16_involutive (x : Z) :
  in_uint 16 x -> bswap_16 (bswap_16 x) = x.
Proof.
  intros Hx. apply Z.bits_inj'. intros n Hn.
  rewrite bswap_16_testbit by (trivial; apply bswap_16_range).
  destruct (Z.ltb_spec n 16) as [Hlt | Hge]; bool_simpl.
  - rewrite bswap_16_testbit by (trivial; zlia).
    decide_cmp. bool_simpl. same_bit.
  - symmetry. apply (testbit_above 16); trivial; lia.
Qed.

Lemma bswap_16_involutive_witness :
  in_uint 16 0xBEEF /\ bswap_16 (bswap_16 0xBEEF) = 0xBEEF.
Proof.
  assert (H : in_uint 16 0xBEEF) by (unfold in_uint; lia).
  split; [exact H | apply (bswap_16_involutive _ H)].
Defined.

(** C8.  The fixed points [bswap_16 0x0000 = 0x0000] and
    [bswap_32 0xFFFFFFFF = 0xFFFFFFFF]. *)
Theorem bswap_fixed_points :
  bswap_16 0x0000 = 0x0000 /\ bswap_32 0xFFFFFFFF = 0xFFFFFFFF.
Proof. split; vm_compute; reflexivity. Qed.

(** C9.  The three operations are total and have no error condition: on
    every value of the argument's type no shift is undefined (each count is
    below the width of the promoted operand, and the left shift of the
    promoted [int] stays in range), so the checked body returns, with the
    value of the plain body, and that value is of the same width. *)
Theorem bswap_total :
  (forall x, in_uint 16 x ->
     bswap_16_checked x = Some (bswap_16 x) /\ in_uint 16 (bswap_16 x)) /\
  (forall x, in_uint 32 x ->
     bswap_32_checked x = Some (bswap_32 x) /\ in_uint 32 (bswap_32 x)) /\
  (forall x, in_uint 64 x ->
     bswap_64_checked x = Some (bswap_64 x) /\ in_uint 64 (bswap_64 x)).
Proof.
  split; [| split]; intros x Hx; split;
    auto using bswap_16_range, bswap_32_range, bswap_64_range;
    try reflexivity.
  unfold in_uint in Hx.
  unfold bswap_16_checked, shr_int, shl_int.
  change (count_ok int_width 8) with true. cbv [andb].
  rewrite (proj2 (Z.leb_le 0 x)) by lia.
  rewrite (proj2 (Z.leb_le (Z.shiftl x 8) INT_MAX)).
  - reflexivity.
  - rewrite Z.shiftl_mul_pow2 by lia. unfold INT_MAX. lia.
Qed.

Lemma bswap_total_witness :
  (bswap_16_checked 0xFFFF = Some (bswap_16 0xFFFF) /\
   in_uint 16 (bswap_16 0xFFFF)) /\
  (bswap_32_checked 0xFFFFFFFF = Some (bswap_32 0xFFFFFFFF) /\
   in_uint 32 (bswap_32 0xFFFFFFFF)) /\
  (bswap_64_checked 0xFFFFFFFFFFFFFFFF = Some (bswap_64 0xFFFFFFFFFFFFFFFF) /\
   in_uint 64 (bswap_64 0xFFFFFFFFFFFFFFFF)).
Proof.
  split; [| split].
  - apply (proj1 bswap_total 0xFFFF). unfold in_uint. lia.
  - apply (proj1 (proj2 bswap_total) 0xFFFFFFFF). unfold in_uint. lia.
  - apply (proj2 (proj2 bswap_total) 0xFFFFFFFFFFFFFFFF).
    unfold in_uint. lia.
Defined.

End FallbackSpec.

(** ** The test program: verdict and exit status *)

Module HarnessSpec.
Import Harness Spec.

Section AnyResolution.
Variables bswap_16 bswap_32 bswap_64 : Z -> Z.

Lemma exit_status_checks :
  exit_status bswap_16 bswap_32 bswap_64
  = if checks_match bswap_16 bswap_32 bswap_64 then 0 else 1.
Proof.
  unfold exit_status, run, main, seq, printf, ret, checks_match.
  destruct (bswap_16 0x1234 =? 0x3412),
    (bswap_32 0x12345678 =? 0x78563412),
    (bswap_64 0x123456789ABCDEF0 =? 0xF0DEBC9A78563412); reflexivity.
Qed.

(** C3.  The program exits with status 0 when the three comparisons all
    match, and with status 1 when any of them does not. *)
Theorem exit_status_pass_fail :
  (bswap_16 0x1234 = 0x3412 /\
   bswap_32 0x12345678 = 0x78563412 /\
   bswap_64 0x123456789ABCDEF0 = 0xF0DEBC9A78563412 ->
   exit_status bswap_16 bswap_32 bswap_64 = 0) /\
  (bswap_16 0x1234 <> 0x3412 \/
   bswap_32 0x12345678 <> 0x78563412 \/
   bswap_64 0x123456789ABCDEF0 <> 0xF0DEBC9A78563412 ->
   exit_status bswap_16 bswap_32 bswap_64 = 1).
Proof.
  rewrite exit_status_checks. unfold checks_match. split.
  - intros (E16 & E32 & E64). rewrite E16, E32, E64. reflexivity.
  - intros [N | [N | N]]; apply Z.eqb_neq in N; rewrite N;
      now rewrite ?andb_false_r.
Qed.

(** C10.  The verdict printed last and the exit status agree: either the
    output ends with the line [Test PASSED!] and the status is 0, or it
    ends with the line [Test FAILED!] and the status is 1. *)
Theorem verdict_agrees_with_status :
  (ends_with passed_line (stdout bswap_16 bswap_32 bswap_64) /\
   exit_status bswap_16 bswap_32 bswap_64 = 0) \/
  (ends_with failed_line (stdout bswap_16 bswap_32 bswap_64) /\
   exit_status bswap_16 bswap_32 bswap_64 = 1).
Proof.
  unfold ends_with, stdout, exit_status, run, main, seq, printf, ret.
  destruct (bswap_16 0x1234 =? 0x3412),
    (bswap_32 0x12345678 =? 0x78563412),
    (bswap_64 0x123456789ABCDEF0 =? 0xF0DEBC9A78563412);
    [left | right ..]; (split; [eexists; reflexivity | reflexivity]).
Qed.
End AnyResolution.

Lemma exit_status_pass_fail_witness :
  exit_status Fallback.bswap_16 Fallback.bswap_32 Fallback.bswap_64 = 0 /\
  exit_status (fun x => x) (fun x => x) (fun x => x) = 1.
Proof.
  split.
  - apply (proj1 (exit_status_pass_fail
                    Fallback.bswap_16 Fallback.bswap_32 Fallback.bswap_64)).
    vm_compute. repeat split; reflexivity.
  - apply (proj2 (exit_status_pass_fail
                    (fun x => x) (fun x => x) (fun x => x))).
    left. lia.
Defined.

(** The whole run of the program built against the manual
    implementations. *)
Example run_fallback_transcript :
  run_fallback =
  ("Byte swap test:" ++ nl ++ nl
   ++ "16-bit: 0x1234 -> 0x3412" ++ nl
   ++ "32-bit: 0x12345678 -> 0x78563412" ++ nl
   ++ "64-bit: 0x123456789abcdef0 -> 0xf0debc9a78563412" ++ nl
   ++ nl ++ "Test PASSED!" ++ nl, 0)%string.
Proof. vm_compute. reflexivity. Qed.

End HarnessSpec.

(** ** Further facts on bytes and halves of a word *)

Module ByteFacts.
Import CInt Fallback Spec BitFacts FallbackFacts.

(** Bit [n] of [x] is bit [n mod 8] of byte [n / 8]. *)
Lemma testbit_byte_at (x n : Z) :
  0 <= n -> Z.testbit x n = Z.testbit (byte_at (n / 8) x) (n mod 8).
Proof.
  intros Hn. rewrite FallbackSpec.byte_at_testbit by zlia.
  decide_cmp. bool_simpl. same_bit.
Qed.



(** Bitwise operators stay within the width of their operands. *)
Lemma bitwise_range (op : Z -> Z -> Z) (f : bool -> bool -> bool) (w x y : Z) :
  (forall a b n, 0 <= n ->
     Z.testbit (op a b) n = f (Z.testbit a n) (Z.testbit b n)) ->
  f false false = false ->
  0 <= w -> in_uint w x -> in_uint w y -> in_uint w (op x y).
Proof.
  intros Hop Hf Hw Hx Hy. apply in_uint_by_bits; [exact Hw |]. intros n Hn.
  rewrite Hop by lia.
  now rewrite (testbit_above w x n), (testbit_above w y n).
Qed.

(** Where bit [n] of the argument ends up in the result. *)
Lemma bswap_16_testbit_source (x n : Z) :
  in_uint 16 x -> 0 <= n < 16 ->
  Z.testbit x n = Z.testbit (bswap_16 x) (n + 8 - 16 * (n / 8)).
Proof.
  intros Hx Hn. rewrite bswap_16_testbit by (trivial; zlia).
  decide_cmp. bool_simpl. same_bit.
Qed.

Lemma bswap_32_testbit_source (x n : Z) :
  0 <= n < 32 ->
  Z.testbit x n = Z.testbit (bswap_32 x) (n + 24 - 16 * (n / 8)).
Proof.
  intros Hn. rewrite bswap_32_testbit by zlia.
  decide_cmp. bool_simpl. same_bit.
Qed.

Lemma bswap_64_testbit_source (x n : Z) :
  0 <= n < 64 ->
  Z.testbit x n = Z.testbit (bswap_64 x) (n + 56 - 16 * (n / 8)).
Proof.
  intros Hn. rewrite bswap_64_testbit by zlia.
  decide_cmp. bool_simpl. same_bit.
Qed.

(** Two equal bytes of [x] agree bit by bit: bit [a] of byte [i] and bit [b]
    of byte [j] at the same place within the byte. *)
Lemma byte_at_eq_bits (i j x a b : Z) :
  byte_at i x = byte_at j x ->
  0 <= a - 8 * i < 8 -> b - 8 * j = a - 8 * i ->
  Z.testbit x a = Z.testbit x b.
Proof.
  intros E Ha Hb.
  assert (T : (a - 8 * i <? 8) = true) by (apply Z.ltb_lt; lia).
  generalize (FallbackSpec.byte_at_testbit i x (a - 8 * i) (proj1 Ha)).
  generalize (FallbackSpec.byte_at_testbit j x (a - 8 * i) (proj1 Ha)).
  rewrite E, T, !andb_true_r.
  replace (a - 8 * i + 8 * i) with a by lia.
  replace (a - 8 * i + 8 * j) with b by lia.
  congruence.
Qed.

(** Use an equation between two bytes, in either direction. *)
Ltac by_bytes E :=
  first [ apply (byte_at_eq_bits _ _ _ _ _ E); zlia
        | apply (byte_at_eq_bits _ _ _ _ _ (eq_sym E)); zlia ].

(** The bytes of each result. *)
Lemma byte_at_bswap_16 (x i : Z) :
  in_uint 16 x -> 0 <= i <= 1 -> byte_at i (bswap_16 x) = byte_at (1 - i) x.
Proof.
  intros Hx Hi. apply Z.bits_inj'. intros n Hn.
  rewrite !FallbackSpec.byte_at_testbit by exact Hn.
  destruct (Z.ltb_spec n 8) as [Hlt | Hge]; bool_simpl; trivial.
  rewrite bswap_16_testbit by (trivial; lia).
  decide_cmp. bool_simpl. same_bit.
Qed.

Lemma byte_at_bswap_32 (x i : Z) :
  0 <= i <= 3 -> byte_at i (bswap_32 x) = byte_at (3 - i) x.
Proof.
  intros Hi. apply Z.bits_inj'. intros n Hn.
  rewrite !FallbackSpec.byte_at_testbit by exact Hn.
  destruct (Z.ltb_spec n 8) as [Hlt | Hge]; bool_simpl; trivial.
  rewrite bswap_32_testbit by lia. decide_cmp. bool_simpl. same_bit.
Qed.

Lemma byte_at_bswap_64 (x i : Z) :
  0 <= i <= 7 -> byte_at i (bswap_64 x) = byte_at (7 - i) x.
Proof.
  intros Hi. apply Z.bits_inj'. intros n Hn.
  rewrite !FallbackSpec.byte_at_testbit by exact Hn.
  destruct (Z.ltb_spec n 8) as [Hlt | Hge]; bool_simpl; trivial.
  rewrite bswap_64_testbit by lia. decide_cmp. bool_simpl. same_bit.
Qed.

(** A byte by division, and a word as the sum of its bytes. *)
Lemma byte_at_div_mod (i x : Z) :
  0 <= i -> byte_at i x = (x / 2 ^ (8 * i)) mod 2 ^ 8.
Proof.
  intros Hi. unfold byte_at. change 0xff with (Z.ones 8).
  rewrite Z.land_ones, Z.shiftr_div_pow2 by lia. reflexivity.
Qed.

Ltac eval_pow2 :=
  repeat match goal with
  | |- context [2 ^ ?e] =>
      let v := eval vm_compute in (2 ^ e) in change (2 ^ e) with v
  end.

Ltac sum_of_bytes :=
  unfold in_uint; intros H; rewrite !byte_at_div_mod by lia;
  revert H; eval_pow2; intros H; zlia.

Lemma uint16_bytes (y : Z) :
  in_uint 16 y -> y = byte_at 1 y * 2 ^ 8 + byte_at 0 y.
Proof. sum_of_bytes. Qed.

Lemma uint32_bytes (y : Z) :
  in_uint 32 y ->
  y = byte_at 3 y * 2 ^ 24 + byte_at 2 y * 2 ^ 16
      + byte_at 1 y * 2 ^ 8 + byte_at 0 y.
Proof. sum_of_bytes. Qed.

Lemma uint64_bytes (y : Z) :
  in_uint 64 y ->
  y = byte_at 7 y * 2 ^ 56 + byte_at 6 y * 2 ^ 48
      + byte_at 5 y * 2 ^ 40 + byte_at 4 y * 2 ^ 32
      + byte_at 3 y * 2 ^ 24 + byte_at 2 y * 2 ^ 16
      + byte_at 1 y * 2 ^ 8 + byte_at 0 y.
Proof. sum_of_bytes. Qed.

(** Byte swapping commutes with any operator that works bit by bit and
    maps two clear bits to a clear bit. *)
Section Bitwise.
Variable op : Z -> Z -> Z.
Variable f : bool -> bool -> bool.
Hypothesis op_spec : forall a b n,
  0 <= n -> Z.testbit (op a b) n = f (Z.testbit a n) (Z.testbit b n).
Hypothesis f_clear : f false false = false.

Lemma bswap_16_bitwise (x y : Z) :
  in_uint 16 x -> in_uint 16 y ->
  bswap_16 (op x y) = op (bswap_16 x) (bswap_16 y).
Proof.
  intros Hx Hy.
  assert (Hxy : in_uint 16 (op x y))
    by (apply (bitwise_range op f); trivial; lia).
  apply Z.bits_inj'. intros n Hn.
  rewrite op_spec, !bswap_16_testbit by trivial.
  destruct (Z.ltb_spec n 16) as [Hlt | Hge]; bool_simpl.
  - apply op_spec. zlia.
  - now rewrite f_clear.
Qed.

Lemma bswap_32_bitwise (x y : Z) :
  bswap_32 (op x y) = op (bswap_32 x) (bswap_32 y).
Proof.
  apply Z.bits_inj'. intros n Hn.
  rewrite op_spec, !bswap_32_testbit by trivial.
  destruct (Z.ltb_spec n 32) as [Hlt | Hge]; bool_simpl.
  - apply op_spec. zlia.
  - now rewrite f_clear.
Qed.

Lemma bswap_64_bitwise (x y : Z) :
  bswap_64 (op x y) = op (bswap_64 x) (bswap_64 y).
Proof.
  apply Z.bits_inj'. intros n Hn.
  rewrite op_spec, !bswap_64_testbit by trivial.
  destruct (Z.ltb_spec n 64) as [Hlt | Hge]; bool_simpl.
  - apply op_spec. zlia.
  - now rewrite f_clear.
Qed.
End Bitwise.

End ByteFacts.

(** ** The manual implementations: further laws *)

Module FallbackLaws.
Import CInt Fallback Spec BitFacts FallbackFacts ByteFacts.

(** X1.  [bswap_16] exchanges the two bytes of its argument: byte [i] of
    [bswap_16 x] is byte [1 - i] of [x], for [i] in 0..1. *)
Theorem bswap_16_reverse_bytes (x i : Z) :
  in_uint 16 x -> 0 <= i <= 1 ->
  byte_at i (bswap_16 x) = byte_at (1 - i) x.
Proof.
  intros Hx Hi. apply Z.bits_inj'. intros n Hn.
  rewrite !FallbackSpec.byte_at_testbit by exact Hn.
  destruct (Z.ltb_spec n 8) as [Hlt | Hge]; bool_simpl; trivial.
  rewrite bswap_16_testbit by (trivial; lia).
  decide_cmp. bool_simpl. same_bit.
Qed.

Lemma bswap_16_reverse_bytes_witness :
  byte_at 1 (bswap_16 0xBEEF) = byte_at (1 - 1) 0xBEEF.
Proof.
  apply (bswap_16_reverse_bytes 0xBEEF 1); unfold in_uint; lia.
Defined.





(** X4.  [bswap_16] commutes with the bitwise operators [|], [&] and [^]
    on 16-bit values. *)
Theorem bswap_16_bitwise_ops (x y : Z) :
  in_uint 16 x -> in_uint 16 y ->
  bswap_16 (Z.lor x y) = Z.lor (bswap_16 x) (bswap_16 y) /\
  bswap_16 (Z.land x y) = Z.land (bswap_16 x) (bswap_16 y) /\
  bswap_16 (Z.lxor x y) = Z.lxor (bswap_16 x) (bswap_16 y).
Proof.
  intros Hx Hy. repeat split.
  - apply (bswap_16_bitwise Z.lor orb); trivial.
    intros a b n _. apply Z.lor_spec.
  - apply (bswap_16_bitwise Z.land andb); trivial.
    intros a b n _. apply Z.land_spec.
  - apply (bswap_16_bitwise Z.lxor xorb); trivial.
    intros a b n _. apply Z.lxor_spec.
Qed.

Lemma bswap_16_bitwise_ops_witness :
  bswap_16 (Z.lor 0x1234 0xBEEF)
  = Z.lor (bswap_16 0x1234) (bswap_16 0xBEEF) /\
  bswap_16 (Z.land 0x1234 0xBEEF)
  = Z.land (bswap_16 0x1234) (bswap_16 0xBEEF) /\
  bswap_16 (Z.lxor 0x1234 0xBEEF)
  = Z.lxor (bswap_16 0x1234) (bswap_16 0xBEEF).
Proof.
  apply (bswap_16_bitwise_ops 0x1234 0xBEEF); unfold in_uint; lia.
Defined.

(** X5.  [bswap_32] commutes with the bitwise operators [|], [&] and [^]
    on 32-bit values. *)
Theorem bswap_32_bitwise_ops (x y : Z) :
  in_uint 32 x -> in_uint 32 y ->
  bswap_32 (Z.lor x y) = Z.lor (bswap_32 x) (bswap_32 y) /\
  bswap_32 (Z.land x y) = Z.land (bswap_32 x) (bswap_32 y) /\
  bswap_32 (Z.lxor x y) = Z.lxor (bswap_32 x) (bswap_32 y).
Proof.
  intros _ _. repeat split.
  - apply (bswap_32_bitwise Z.lor orb); trivial.
    intros a b n _. apply Z.lor_spec.
  - apply (bswap_32_bitwise Z.land andb); trivial.
    intros a b n _. apply Z.land_spec.
  - apply (bswap_32_bitwise Z.lxor xorb); trivial.
    intros a b n _. apply Z.lxor_spec.
Qed.

Lemma bswap_32_bitwise_ops_witness :
  bswap_32 (Z.lor 0x12345678 0xDEADBEEF)
  = Z.lor (bswap_32 0x12345678) (bswap_32 0xDEADBEEF) /\
  bswap_32 (Z.land 0x12345678 0xDEADBEEF)
  = Z.land (bswap_32 0x12345678) (bswap_32 0xDEADBEEF) /\
  bswap_32 (Z.lxor 0x12345678 0xDEADBEEF)
  = Z.lxor (bswap_32 0x12345678) (bswap_32 0xDEADBEEF).
Proof.
  apply (bswap_32_bitwise_ops 0x12345678 0xDEADBEEF); unfold in_uint; lia.
Defined.

(** X6.  [bswap_64] commutes with the bitwise operators [|], [&] and [^]
    on 64-bit values. *)
Theorem bswap_64_bitwise_ops (x y : Z) :
  in_uint 64 x -> in_uint 64 y ->
  bswap_64 (Z.lor x y) = Z.lor (bswap_64 x) (bswap_64 y) /\
  bswap_64 (Z.land x y) = Z.land (bswap_64 x) (bswap_64 y) /\
  bswap_64 (Z.lxor x y) = Z.lxor (bswap_64 x) (bswap_64 y).
Proof.
  intros _ _. repeat split.
  - apply (bswap_64_bitwise Z.lor orb); trivial.
    intros a b n _. apply Z.lor_spec.
  - apply (bswap_64_bitwise Z.land andb); trivial.
    intros a b n _. apply Z.land_spec.
  - apply (bswap_64_bitwise Z.lxor xorb); trivial.
    intros a b n _. apply Z.lxor_spec.
Qed.

Lemma bswap_64_bitwise_ops_witness :
  bswap_64 (Z.lor 0x123456789ABCDEF0 0xDEADBEEF00C0FFEE)
  = Z.lor (bswap_64 0x123456789ABCDEF0) (bswap_64 0xDEADBEEF00C0FFEE) /\
  bswap_64 (Z.land 0x123456789ABCDEF0 0xDEADBEEF00C0FFEE)
  = Z.land (bswap_64 0x123456789ABCDEF0) (bswap_64 0xDEADBEEF00C0FFEE) /\
  bswap_64 (Z.lxor 0x123456789ABCDEF0 0xDEADBEEF00C0FFEE)
  = Z.lxor (bswap_64 0x123456789ABCDEF0) (bswap_64 0xDEADBEEF00C0FFEE).
Proof.
  apply (bswap_64_bitwise_ops 0x123456789ABCDEF0 0xDEADBEEF00C0FFEE);
    unfold in_uint; lia.
Defined.

(** X7.  The three operations are injective on the values of their type:
    two different arguments never give the same result. *)
Theorem bswap_injective :
  (forall x y, in_uint 16 x -> in_uint 16 y ->
     bswap_16 x = bswap_16 y -> x = y) /\
  (forall x y, in_uint 32 x -> in_uint 32 y ->
     bswap_32 x = bswap_32 y -> x = y) /\
  (forall x y, in_uint 64 x -> in_uint 64 y ->
     bswap_64 x = bswap_64 y -> x = y).
Proof.
  split; [| split]; intros x y Hx Hy E; apply Z.bits_inj'; intros n Hn.
  - destruct (Z.lt_ge_cases n 16) as [Hlt | Hge].
    + rewrite (bswap_16_testbit_source x n), (bswap_16_testbit_source y n)
        by (trivial; lia).
      now rewrite E.
    + now rewrite !(testbit_above 16) by (trivial; lia).
  - destruct (Z.lt_ge_cases n 32) as [Hlt | Hge].
    + rewrite (bswap_32_testbit_source x n), (bswap_32_testbit_source y n)
        by lia.
      now rewrite E.
    + now rewrite !(testbit_above 32) by (trivial; lia).
  - destruct (Z.lt_ge_cases n 64) as [Hlt | Hge].
    + rewrite (bswap_64_testbit_source x n), (bswap_64_testbit_source y n)
        by lia.
      now rewrite E.
    + now rewrite !(testbit_above 64) by (trivial; lia).
Qed.

Lemma bswap_injective_witness :
  0x3412 = 0x3412 /\ 0x78563412 = 0x78563412 /\
  0xF0DEBC9A78563412 = 0xF0DEBC9A78563412.
Proof.
  split; [| split].
  - apply (proj1 bswap_injective 0x3412 0x3412);
      first [ reflexivity | unfold in_uint; lia ].
  - apply (proj1 (proj2 bswap_injective) 0x78563412 0x78563412);
      first [ reflexivity | unfold in_uint; lia ].
  - apply (proj2 (proj2 bswap_injective)
             0xF0DEBC9A78563412 0xF0DEBC9A78563412);
      first [ reflexivity | unfold in_uint; lia ].
Defined.

(** X8.  The values left unchanged are exactly the byte palindromes:
    [bswap_16 x = x] when the two bytes of [x] are equal, [bswap_32 x = x]
    when bytes 0 and 3 and bytes 1 and 2 are equal, [bswap_64 x = x] when
    bytes [i] and [7 - i] are equal for [i] in 0..3. *)
Theorem bswap_fixed_point_iff :
  (forall x, in_uint 16 x ->
     (bswap_16 x = x <-> byte_at 0 x = byte_at 1 x)) /\
  (forall x, in_uint 32 x ->
     (bswap_32 x = x <->
      byte_at 0 x = byte_at 3 x /\ byte_at 1 x = byte_at 2 x)) /\
  (forall x, in_uint 64 x ->
     (bswap_64 x = x <->
      byte_at 0 x = byte_at 7 x /\ byte_at 1 x = byte_at 6 x /\
      byte_at 2 x = byte_at 5 x /\ byte_at 3 x = byte_at 4 x)).
Proof.
  split; [| split]; intros x Hx; split.
  - intros E.
    pose proof (byte_at_bswap_16 x 0 Hx ltac:(lia)) as B0.
    rewrite E in B0. exact B0.
  - intros E0. apply Z.bits_inj'. intros n Hn.
    rewrite bswap_16_testbit by trivial.
    assert (Hc : n < 8 \/ 8 <= n < 16 \/ 16 <= n) by lia.
    destruct Hc as [Hc | [Hc | Hc]]; decide_cmp; bool_simpl.
    + by_bytes E0.
    + by_bytes E0.
    + symmetry. apply (testbit_above 16); trivial; lia.
  - intros E.
    pose proof (byte_at_bswap_32 x 0 ltac:(lia)) as B0.
    pose proof (byte_at_bswap_32 x 1 ltac:(lia)) as B1.
    rewrite E in B0, B1. split; [exact B0 | exact B1].
  - intros [E0 E1]. apply Z.bits_inj'. intros n Hn.
    rewrite bswap_32_testbit by trivial.
    assert (Hc : n < 8 \/ 8 <= n < 16 \/ 16 <= n < 24 \/ 24 <= n < 32 \/
                 32 <= n) by lia.
    destruct Hc as [Hc | [Hc | [Hc | [Hc | Hc]]]]; decide_cmp; bool_simpl.
    + by_bytes E0.
    + by_bytes E1.
    + by_bytes E1.
    + by_bytes E0.
    + symmetry. apply (testbit_above 32); trivial; lia.
  - intros E.
    pose proof (byte_at_bswap_64 x 0 ltac:(lia)) as B0.
    pose proof (byte_at_bswap_64 x 1 ltac:(lia)) as B1.
    pose proof (byte_at_bswap_64 x 2 ltac:(lia)) as B2.
    pose proof (byte_at_bswap_64 x 3 ltac:(lia)) as B3.
    rewrite E in B0, B1, B2, B3. repeat split; assumption.
  - intros (E0 & E1 & E2 & E3). apply Z.bits_inj'. intros n Hn.
    rewrite bswap_64_testbit by trivial.
    assert (Hc : n < 8 \/ 8 <= n < 16 \/ 16 <= n < 24 \/ 24 <= n < 32 \/
                 32 <= n < 40 \/ 40 <= n < 48 \/ 48 <= n < 56 \/
                 56 <= n < 64 \/ 64 <= n) by lia.
    destruct Hc as [Hc | [Hc | [Hc | [Hc | [Hc | [Hc | [Hc | [Hc | Hc]]]]]]]];
      decide_cmp; bool_simpl.
    + by_bytes E0.
    + by_bytes E1.
    + by_bytes E2.
    + by_bytes E3.
    + by_bytes E3.
    + by_bytes E2.
    + by_bytes E1.
    + by_bytes E0.
    + symmetry. apply (testbit_above 64); trivial; lia.
Qed.

Lemma bswap_fixed_point_iff_witness :
  bswap_16 0xABAB = 0xABAB /\ bswap_32 0x12ABAB12 = 0x12ABAB12 /\
  bswap_64 0x0123456767452301 = 0x0123456767452301.
Proof.
  split; [| split].
  - apply (proj1 bswap_fixed_point_iff 0xABAB).
    + unfold in_uint. lia.
    + reflexivity.
  - apply (proj1 (proj2 bswap_fixed_point_iff) 0x12ABAB12).
    + unfold in_uint. lia.
    + split; reflexivity.
  - apply (proj2 (proj2 bswap_fixed_point_iff) 0x0123456767452301).
    + unfold in_uint. lia.
    + repeat split; reflexivity.
Defined.

(** X10.  The value of each result: the bytes of the argument read in the
    opposite order, its least significant byte weighing most. *)
Theorem bswap_value :
  (forall x, in_uint 16 x ->
     bswap_16 x = byte_at 0 x * 2 ^ 8 + byte_at 1 x) /\
  (forall x, in_uint 32 x ->
     bswap_32 x = byte_at 0 x * 2 ^ 24 + byte_at 1 x * 2 ^ 16
                  + byte_at 2 x * 2 ^ 8 + byte_at 3 x) /\
  (forall x, in_uint 64 x ->
     bswap_64 x = byte_at 0 x * 2 ^ 56 + byte_at 1 x * 2 ^ 48
                  + byte_at 2 x * 2 ^ 40 + byte_at 3 x * 2 ^ 32
                  + byte_at 4 x * 2 ^ 24 + byte_at 5 x * 2 ^ 16
                  + byte_at 6 x * 2 ^ 8 + byte_at 7 x).
Proof.
  split; [| split]; intros x Hx.
  - rewrite (uint16_bytes (bswap_16 x)) by apply bswap_16_range.
    now rewrite !byte_at_bswap_16 by (trivial; lia).
  - rewrite (uint32_bytes (bswap_32 x)) by apply bswap_32_range.
    now rewrite !byte_at_bswap_32 by lia.
  - rewrite (uint64_bytes (bswap_64 x)) by apply bswap_64_range.
    now rewrite !byte_at_bswap_64 by lia.
Qed.

Lemma bswap_value_witness :
  bswap_16 0x1234 = byte_at 0 0x1234 * 2 ^ 8 + byte_at 1 0x1234 /\
  bswap_32 0x12345678
  = byte_at 0 0x12345678 * 2 ^ 24 + byte_at 1 0x12345678 * 2 ^ 16
    + byte_at 2 0x12345678 * 2 ^ 8 + byte_at 3 0x12345678 /\
  bswap_64 0x123456789ABCDEF0
  = byte_at 0 0x123456789ABCDEF0 * 2 ^ 56
    + byte_at 1 0x123456789ABCDEF0 * 2 ^ 48
    + byte_at 2 0x123456789ABCDEF0 * 2 ^ 40
    + byte_at 3 0x123456789ABCDEF0 * 2 ^ 32
    + byte_at 4 0x123456789ABCDEF0 * 2 ^ 24
    + byte_at 5 0x123456789ABCDEF0 * 2 ^ 16
    + byte_at 6 0x123456789ABCDEF0 * 2 ^ 8
    + byte_at 7 0x123456789ABCDEF0.
Proof.
  split; [| split].
  - apply (proj1 bswap_value 0x1234). unfold in_uint. lia.
  - apply (proj1 (proj2 bswap_value) 0x12345678). unfold in_uint. lia.
  - apply (proj2 (proj2 bswap_value) 0x123456789ABCDEF0).
    unfold in_uint. lia.
Defined.

End FallbackLaws.

(** ** The test program: the whole run *)

Module HarnessLaws.
Import Harness Spec.

(** X9.  Whatever the three macros resolve to, when they return the expected
    values on the three vectors the program writes exactly the passing
    transcript (header, three result lines, blank line, [Test PASSED!]) and
    exits with status 0. *)
Theorem run_of_correct_swaps (bswap_16 bswap_32 bswap_64 : Z -> Z) :
  bswap_16 0x1234 = 0x3412 ->
  bswap_32 0x12345678 = 0x78563412 ->
  bswap_64 0x123456789ABCDEF0 = 0xF0DEBC9A78563412 ->
  run bswap_16 bswap_32 bswap_64 = (passing_transcript, 0).
Proof.
  intros E16 E32 E64.
  unfold run, main, seq, printf, ret. cbv zeta.
  rewrite E16, E32, E64. vm_compute. reflexivity.
Qed.

Lemma run_of_correct_swaps_witness :
  run Fallback.bswap_16 Fallback.bswap_32 Fallback.bswap_64
  = (passing_transcript, 0).
Proof.
  apply (run_of_correct_swaps
           Fallback.bswap_16 Fallback.bswap_32 Fallback.bswap_64);
    vm_compute; reflexivity.
Defined.

End HarnessLaws.
